(** * TransactionService: a relational model of the service layer

    Shallow embedding of [src/server/application/TransactionService.js].
    The service is a thin layer over an object-relational mapper and a SQL
    query builder; both are modelled here by their relational meaning on an
    explicit database state, and every service function is written over
    these primitives call for call. *)

From stdpp Require Import gmap strings list fin_maps.
From Stdlib Require Import ZArith.

Local Open Scope Z_scope.

(** ** JavaScript values at the service boundary *)

(** An optional JavaScript argument or object property holding an [A]:
    [JsUndefined] is an omitted argument or an absent property. *)
Inductive js_opt (A : Type) : Type :=
  | JsUndefined
  | JsNull
  | JsVal (a : A).
Arguments JsUndefined {A}.
Arguments JsNull {A}.
Arguments JsVal {A} a.

(** Truthiness of an optional number: [undefined], [null] and [0] are falsy. *)
Definition truthy_number (x : js_opt Z) : bool :=
  match x with
  | JsVal n => negb (n =? 0)
  | _ => false
  end.

(** Truthiness of an optional object (a [Date]): every object is truthy. *)
Definition truthy_object {A : Type} (x : js_opt A) : bool :=
  match x with
  | JsVal _ => true
  | _ => false
  end.

(** ** Promises *)

Inductive Error : Type :=
  | NotFoundError
  | NoRowsUpdatedError
  | NoRowsDeletedError
  | ConstraintError.

Inductive Settled (A : Type) : Type :=
  | Fulfilled (a : A)
  | Rejected (e : Error).
Arguments Fulfilled {A} a.
Arguments Rejected {A} e.

(** ** Schema *)

(** Modelled from the spec: the migrations are not part of the sources.
    Table [transactions] has the columns [id], [txn_date], [payee], [memo],
    [amount], [account_id], [category_id]; [id] is the primary key and is
    the key of the table map below. Dates are instants (epoch milliseconds),
    amounts are counted in minor units. *)
Record TransactionRow : Type := {
  txn_date : Z;
  payee : string;
  memo : string;
  amount : Z;
  account_id : Z;
  category_id : Z
}.

(** Modelled from the spec: table [categories] has the columns [id] (the key
    of the table map) and [name]. *)
Record CategoryRow : Type := { name : string }.

(** Attributes of a [Transaction] model, that is the plain object handed to
    [new Transaction(...)] or to [where(...)]. *)
Record TransactionData : Type := {
  d_id : js_opt Z;
  d_txn_date : js_opt Z;
  d_payee : js_opt string;
  d_memo : js_opt string;
  d_amount : js_opt Z;
  d_account_id : js_opt Z;
  d_category_id : js_opt Z
}.

(** The object literal [{}]. *)
Definition empty_object : TransactionData :=
  {| d_id := JsUndefined; d_txn_date := JsUndefined; d_payee := JsUndefined;
     d_memo := JsUndefined; d_amount := JsUndefined;
     d_account_id := JsUndefined; d_category_id := JsUndefined |}.

Definition set_d_id (v : js_opt Z) (d : TransactionData) : TransactionData :=
  {| d_id := v; d_txn_date := d_txn_date d; d_payee := d_payee d;
     d_memo := d_memo d; d_amount := d_amount d;
     d_account_id := d_account_id d; d_category_id := d_category_id d |}.

Definition set_d_account_id (v : js_opt Z) (d : TransactionData)
  : TransactionData :=
  {| d_id := d_id d; d_txn_date := d_txn_date d; d_payee := d_payee d;
     d_memo := d_memo d; d_amount := d_amount d;
     d_account_id := v; d_category_id := d_category_id d |}.

(** A row read back from the store, as model attributes. *)
Definition data_of_row (k : Z) (r : TransactionRow) : TransactionData :=
  {| d_id := JsVal k; d_txn_date := JsVal (txn_date r);
     d_payee := JsVal (payee r); d_memo := JsVal (memo r);
     d_amount := JsVal (amount r); d_account_id := JsVal (account_id r);
     d_category_id := JsVal (category_id r) |}.

(** The value a column takes when a statement sets it from an attribute:
    an absent attribute leaves the column as it was ([old]), [null] stores
    NULL. *)
Definition column {A : Type} (old : option A) (v : js_opt A) : option A :=
  match v with
  | JsVal a => Some a
  | JsNull => None
  | JsUndefined => old
  end.

(** The row written by an INSERT ([old = None]) or an UPDATE of the row
    [old]; [None] when a column would be left NULL. *)
Definition row_of_data (old : option TransactionRow) (d : TransactionData)
  : option TransactionRow :=
  dt ← column (txn_date <$> old) (d_txn_date d);
  py ← column (payee <$> old) (d_payee d);
  mm ← column (memo <$> old) (d_memo d);
  am ← column (amount <$> old) (d_amount d);
  ac ← column (account_id <$> old) (d_account_id d);
  ct ← column (category_id <$> old) (d_category_id d);
  Some {| txn_date := dt; payee := py; memo := mm; amount := am;
          account_id := ac; category_id := ct |}.

(** Equality condition of a WHERE clause built from an attribute object:
    an absent attribute adds no condition, [null] matches no column (no
    column is NULL). *)
Definition cond {A : Type} `{EqDecision A} (v : js_opt A) (c : A) : bool :=
  match v with
  | JsUndefined => true
  | JsNull => false
  | JsVal a => bool_decide (a = c)
  end.

Definition matches (w : TransactionData) (kr : Z * TransactionRow) : bool :=
  cond (d_id w) kr.1 && cond (d_txn_date w) (txn_date kr.2)
  && cond (d_payee w) (payee kr.2) && cond (d_memo w) (memo kr.2)
  && cond (d_amount w) (amount kr.2)
  && cond (d_account_id w) (account_id kr.2)
  && cond (d_category_id w) (category_id kr.2).

(** Loaded state of a relation of a model. [Loaded None] is a relation that
    was resolved and found no related row. *)
Inductive Relation (A : Type) : Type :=
  | NotLoaded
  | Loaded (r : option A).
Arguments NotLoaded {A}.
Arguments Loaded {A} r.

(** One row of the aggregate query. *)
Module Aggregate.

Record t : Type := {
  cat_id : option Z;
  cat_name : option string;
  amount : option Z
}.

End Aggregate.

(** Defaults of the mapper's [require] option for [save] and [destroy];
    they differ between versions of the mapper. *)
Record OrmDefaults : Type := {
  save_require : bool;
  destroy_require : bool
}.

Section TransactionService.

(** Modelled from the spec: accounts are opaque related entities. *)
Context {AccountRow : Type}.
Variable orm : OrmDefaults.

(** ** Database state *)

Record Db : Type := {
  transactions : gmap Z TransactionRow;
  transactions_seq : Z;
  accounts : gmap Z AccountRow;
  categories : gmap Z CategoryRow
}.

Definition with_transactions (ts : gmap Z TransactionRow) (db : Db) : Db :=
  {| transactions := ts; transactions_seq := transactions_seq db;
     accounts := accounts db; categories := categories db |}.

Definition with_seq (n : Z) (db : Db) : Db :=
  {| transactions := transactions db; transactions_seq := n;
     accounts := accounts db; categories := categories db |}.

(** A promise is run against the store and settles. *)
Definition Promise (A : Type) : Type := Db → Settled A * Db.

Definition resolve {A : Type} (a : A) : Promise A := λ db, (Fulfilled a, db).

(** [p.then(f)]: a rejection passes through unchanged. *)
Definition then_ {A B : Type} (p : Promise A) (f : A → Promise B)
  : Promise B :=
  λ db,
    match p db with
    | (Fulfilled a, db') => f a db'
    | (Rejected e, db') => (Rejected e, db')
    end.

(** ** The [Transaction] model *)

(** Modelled from the spec: [domain.Transaction] is not part of the sources.
    It maps table [transactions] and has the many-to-one relations
    [account] (through [account_id]) and [category] (through
    [category_id]). *)
Record Transaction : Type := {
  attributes : TransactionData;
  account : Relation AccountRow;
  category : Relation CategoryRow
}.

(** [new Transaction(attrs)] *)
Definition new_Transaction (attrs : TransactionData) : Transaction :=
  {| attributes := attrs; account := NotLoaded; category := NotLoaded |}.

(** Modelled from the spec: [account_id] and [category_id] are foreign keys;
    a row that references a missing account or category violates the
    constraint. *)
Definition fk_check (db : Db) (r : TransactionRow) : bool :=
  bool_decide (is_Some (accounts db !! account_id r))
  && bool_decide (is_Some (categories db !! category_id r)).

(** INSERT of the model's attributes. A statement without [id] takes the
    next value of the table's sequence, and the sequence has moved on whether
    or not the row is accepted. An [id] of [null] puts NULL in the primary
    key and is refused; an [id] that is given is used as it is. *)
Definition insert (m : Transaction) : Promise Transaction :=
  λ db,
    match d_id (attributes m) with
    | JsUndefined =>
        let k := transactions_seq db in
        match row_of_data None (attributes m), transactions db !! k with
        | Some r, None =>
            if fk_check db r then
              (Fulfilled {| attributes := set_d_id (JsVal k) (attributes m);
                            account := account m; category := category m |},
               with_seq (k + 1)
                 (with_transactions (<[k := r]> (transactions db)) db))
            else (Rejected ConstraintError, with_seq (k + 1) db)
        | _, _ => (Rejected ConstraintError, with_seq (k + 1) db)
        end
    | JsNull => (Rejected ConstraintError, db)
    | JsVal k =>
        match row_of_data None (attributes m), transactions db !! k with
        | Some r, None =>
            if fk_check db r then
              (Fulfilled m,
               with_transactions (<[k := r]> (transactions db)) db)
            else (Rejected ConstraintError, db)
        | _, _ => (Rejected ConstraintError, db)
        end
    end.

(** UPDATE ... WHERE id = k, setting the columns the model has. *)
Definition update (k : Z) (m : Transaction) : Promise Transaction :=
  λ db,
    match transactions db !! k with
    | None =>
        if save_require orm then (Rejected NoRowsUpdatedError, db)
        else (Fulfilled m, db)
    | Some old =>
        match row_of_data (Some old) (attributes m) with
        | Some r =>
            if fk_check db r then
              (Fulfilled m, with_transactions (<[k := r]> (transactions db)) db)
            else (Rejected ConstraintError, db)
        | None => (Rejected ConstraintError, db)
        end
    end.

(** [model.save()]: a model without identifier is new and is inserted. *)
Definition save (m : Transaction) : Promise Transaction :=
  match d_id (attributes m) with
  | JsVal k => update k m
  | _ => insert m
  end.

(** SELECT * FROM transactions WHERE ..., in the store's order. *)
Definition select_where (w : TransactionData) (db : Db)
  : list (Z * TransactionRow) :=
  filter (λ kr, matches w kr = true) (map_to_list (transactions db)).

Definition model_of_row (kr : Z * TransactionRow) : Transaction :=
  new_Transaction (data_of_row kr.1 kr.2).

(** [model.fetch({require: true})]: the first row matching the model's
    attributes, or a not-found rejection. *)
Definition fetch_require (m : Transaction) : Promise Transaction :=
  λ db,
    match select_where (attributes m) db with
    | kr :: _ => (Fulfilled (model_of_row kr), db)
    | [] => (Rejected NotFoundError, db)
    end.

(** [Transaction.where(w).fetchAll()] *)
Definition where_fetchAll (w : TransactionData) : Promise (list Transaction) :=
  λ db, (Fulfilled (model_of_row <$> select_where w db), db).

(** The row a foreign-key attribute refers to. *)
Definition related {A : Type} (table : gmap Z A) (fk : js_opt Z) : option A :=
  match fk with
  | JsVal k => table !! k
  | _ => None
  end.

(** The model with both relations resolved against the store. *)
Definition with_relations (db : Db) (m : Transaction) : Transaction :=
  {| attributes := attributes m;
     account := Loaded (related (accounts db) (d_account_id (attributes m)));
     category :=
       Loaded (related (categories db) (d_category_id (attributes m))) |}.

(** [model.load(['account', 'category'])] *)
Definition load (m : Transaction) : Promise Transaction :=
  λ db, (Fulfilled (with_relations db m), db).

(** Rows of the table as models with their relations resolved. *)
Definition loaded_rows (db : Db) (l : list (Z * TransactionRow))
  : list Transaction :=
  (λ kr, with_relations db (model_of_row kr)) <$> l.

(** [collection.load(['account', 'category'])] *)
Fixpoint load_all (ms : list Transaction) : Promise (list Transaction) :=
  match ms with
  | [] => resolve []
  | m :: ms' =>
      then_ (load m) (λ m', then_ (load_all ms') (λ r, resolve (m' :: r)))
  end.

(** [model.destroy()]: DELETE FROM transactions WHERE id = k. *)
Definition destroy (m : Transaction) : Promise unit :=
  λ db,
    match d_id (attributes m) with
    | JsVal k =>
        match transactions db !! k with
        | Some _ =>
            (Fulfilled (), with_transactions (delete k (transactions db)) db)
        | None =>
            if destroy_require orm then (Rejected NoRowsDeletedError, db)
            else (Fulfilled (), db)
        end
    | _ =>
        if destroy_require orm then (Rejected NoRowsDeletedError, db)
        else (Fulfilled (), db)
    end.

(** ** The query builder *)

(** A row of [transactions as t left outer join categories as c on
    t.category_id = c.id]: every transaction row appears, with the category
    row its [category_id] selects when there is one. [c.id] is the key of the
    category table, so a transaction joins at most one category. *)
Record Joined : Type := {
  t : Z * TransactionRow;
  c : option (Z * CategoryRow)
}.

Definition join_category (db : Db) (kr : Z * TransactionRow) : Joined :=
  {| t := kr;
     c := (λ cr, (category_id kr.2, cr)) <$> categories db !! category_id kr.2 |}.

Definition leftOuterJoin (db : Db) : list Joined :=
  join_category db <$> map_to_list (transactions db).

(** The builder after [select(...).from(...).leftOuterJoin(...)]: the only
    part that varies is the list of [whereBetween('t.txn_date', [lo, hi])]
    clauses, kept with the values bound to them. *)
Record QueryBuilder : Type := {
  qb_whereBetween : list (js_opt Z * js_opt Z)
}.

Definition knex_select_from_leftOuterJoin : QueryBuilder :=
  {| qb_whereBetween := [] |}.

Definition whereBetween (lo hi : js_opt Z) (qb : QueryBuilder) : QueryBuilder :=
  {| qb_whereBetween := qb_whereBetween qb ++ [(lo, hi)] |}.

(** [d BETWEEN lo AND hi]; a NULL bound makes the condition unknown, which
    keeps no row. *)
Definition between (lo hi : js_opt Z) (d : Z) : bool :=
  match lo, hi with
  | JsVal l, JsVal h => (l <=? d) && (d <=? h)
  | _, _ => false
  end.

Definition where_holds (qb : QueryBuilder) (j : Joined) : bool :=
  forallb (λ b, between b.1 b.2 (txn_date (t j).2)) (qb_whereBetween qb).

(** The grouping key [c.id]; NULL for a transaction that joined no
    category. *)
Definition group_key (j : Joined) : option Z := fst <$> c j.

(** [sum(...)]: NULL over no rows. *)
Definition sql_sum (l : list Z) : option Z :=
  match l with
  | [] => None
  | _ => Some (foldr Z.add 0 l)
  end.

(** [select c.id as cat_id, c.name as cat_name, sum(t.amount) as amount]
    over the rows of one group. *)
Definition select_aggregate (k : option Z) (rows : list Joined) : Aggregate.t :=
  {| Aggregate.cat_id := k;
     Aggregate.cat_name := head rows ≫= (λ j, (λ ic, name ic.2) <$> c j);
     Aggregate.amount := sql_sum ((λ j, amount (t j).2) <$> rows) |}.

Definition run_groupBy (qb : QueryBuilder) (db : Db) : list Aggregate.t :=
  let rows := filter (λ j, where_holds qb j = true) (leftOuterJoin db) in
  (λ k, select_aggregate k (filter (λ j, group_key j = k) rows))
    <$> remove_dups (group_key <$> rows).

(** [qb.groupBy('c.id')], the finished query; it is run when the caller
    waits for it. *)
Definition groupBy_c_id (qb : QueryBuilder) : Promise (list Aggregate.t) :=
  λ db, (Fulfilled (run_groupBy qb db), db).

(** ** The service *)

Definition saveTransaction (transactionData : TransactionData)
  : Promise Transaction :=
  let transaction := new_Transaction transactionData in
  save transaction.

Definition createTransaction (transactionData : TransactionData)
  : Promise Transaction :=
  saveTransaction transactionData.

Definition updateTransaction (transactionData : TransactionData)
  : Promise Transaction :=
  saveTransaction transactionData.

Definition getTransaction (id : Z) : Promise Transaction :=
  then_ (fetch_require (new_Transaction (set_d_id (JsVal id) empty_object)))
        (λ transaction, load transaction).

Definition getTransactions (accountId : js_opt Z)
  : Promise (list Transaction) :=
  let filterOptions := empty_object in
  let filterOptions :=
    if truthy_number accountId then set_d_account_id accountId filterOptions
    else filterOptions in
  then_ (where_fetchAll filterOptions) (λ transactions, load_all transactions).

Definition getTransactionsByCategory (startDate endDate : js_opt Z)
  : Promise (list Aggregate.t) :=
  let qb := knex_select_from_leftOuterJoin in
  let qb :=
    if truthy_object startDate && truthy_object endDate
    then whereBetween startDate endDate qb
    else qb in
  groupBy_c_id qb.

Definition deleteTransaction (id : Z) : Promise unit :=
  destroy (new_Transaction (set_d_id (JsVal id) empty_object)).

(** ** Store invariants and valid input *)

(** The sequence is positive and ahead of every identifier in use. *)
Definition seq_ok (db : Db) : Prop :=
  0 < transactions_seq db ∧
  map_Forall (λ k _, k < transactions_seq db) (transactions db).

(** Referential integrity of the transaction table. *)
Definition fk_ok (db : Db) : Prop :=
  map_Forall (λ _ r, fk_check db r = true) (transactions db).

Definition has_value {A : Type} (v : js_opt A) : bool :=
  match v with
  | JsVal _ => true
  | _ => false
  end.

(** Valid transaction data: every field other than the identifier is
    supplied, and the account and the category it names exist. *)
Definition valid_data (db : Db) (d : TransactionData) : Prop :=
  has_value (d_txn_date d) = true ∧ has_value (d_payee d) = true ∧
  has_value (d_memo d) = true ∧ has_value (d_amount d) = true ∧
  is_Some (related (accounts db) (d_account_id d)) ∧
  is_Some (related (categories db) (d_category_id d)).

(** The transactions of a category inside an inclusive date range, and all
    the transactions of a category. *)
Definition in_category_between (cid lo hi : Z) (kr : Z * TransactionRow)
  : Prop :=
  category_id kr.2 = cid ∧ lo ≤ txn_date kr.2 ≤ hi.

Definition in_category (cid : Z) (kr : Z * TransactionRow) : Prop :=
  category_id kr.2 = cid.

(** The transactions whose [category_id] names no category. *)
Definition uncategorised (db : Db) (kr : Z * TransactionRow) : Prop :=
  categories db !! category_id kr.2 = None.

Definition uncategorised_between (db : Db) (lo hi : Z)
  (kr : Z * TransactionRow) : Prop :=
  categories db !! category_id kr.2 = None ∧ lo ≤ txn_date kr.2 ≤ hi.

#[global] Instance in_category_between_dec cid lo hi kr :
  Decision (in_category_between cid lo hi kr).
Proof. unfold in_category_between. apply _. Defined.

#[global] Instance in_category_dec cid kr : Decision (in_category cid kr).
Proof. unfold in_category. apply _. Defined.

#[global] Instance uncategorised_dec db kr : Decision (uncategorised db kr).
Proof. unfold uncategorised. apply _. Defined.

#[global] Instance uncategorised_between_dec db lo hi kr :
  Decision (uncategorised_between db lo hi kr).
Proof. unfold uncategorised_between. apply _. Defined.

Definition sum_amounts (l : list (Z * TransactionRow)) : Z :=
  foldr Z.add 0 ((λ kr, amount kr.2) <$> l).

(** The date condition [getTransactionsByCategory] puts on a transaction:
    the range when both bounds are truthy, none otherwise. *)
Definition passes (startDate endDate : js_opt Z) (r : TransactionRow) : bool :=
  if truthy_object startDate && truthy_object endDate
  then between startDate endDate (txn_date r)
  else true.

(** The identifier attribute of a model. *)
Definition record_id (m : Transaction) : js_opt Z := d_id (attributes m).

(** The amounts of the rows of an aggregate result added up, a NULL amount
    counting for nothing. *)
Definition total_amount (rows : list Aggregate.t) : Z :=
  foldr Z.add 0 ((λ row, default 0 (Aggregate.amount row)) <$> rows).

End TransactionService.

(** ** Sample stores *)

Definition gas : TransactionRow :=
  {| txn_date := 10; payee := "Chevron Gas Station"; memo := "Gas";
     amount := -30; account_id := 3; category_id := 1 |}.

Definition tyres : TransactionRow :=
  {| txn_date := 20; payee := "Tyre Shop"; memo := "Tyres";
     amount := -20; account_id := 3; category_id := 1 |}.

Definition pay : TransactionRow :=
  {| txn_date := 30; payee := "Employer"; memo := "Pay";
     amount := 100; account_id := 4; category_id := 2 |}.

Definition sample_categories : gmap Z CategoryRow :=
  <[1 := {| name := "Auto & Transport" |}]>
    (<[2 := {| name := "Salary" |}]> (<[3 := {| name := "Travel" |}]> ∅)).

Definition sample_accounts : gmap Z string :=
  <[3 := "Checking"]> (<[4 := "Savings"]> ∅).

(** Three transactions in two of three categories. *)
Definition sample_db : Db :=
  {| transactions := <[1 := gas]> (<[2 := tyres]> (<[3 := pay]> ∅));
     transactions_seq := 4;
     accounts := sample_accounts;
     categories := sample_categories |}.

(** Categories and accounts, no transaction yet. *)
Definition fresh_db : Db :=
  {| transactions := ∅; transactions_seq := 1;
     accounts := sample_accounts; categories := sample_categories |}.

Definition sample_orm : OrmDefaults :=
  {| save_require := true; destroy_require := false |}.

(** Transaction data without identifier that names a category the store
    does not have. *)
Definition receipt : TransactionData :=
  {| d_id := JsUndefined; d_txn_date := JsVal 50; d_payee := JsVal "Kiosk";
     d_memo := JsVal "Paper"; d_amount := JsVal (-2);
     d_account_id := JsVal 3; d_category_id := JsVal 9 |}.

(** Full transaction data without an identifier. *)
Definition groceries : TransactionData :=
  {| d_id := JsUndefined; d_txn_date := JsVal 40; d_payee := JsVal "Market";
     d_memo := JsVal "Food"; d_amount := JsVal (-15);
     d_account_id := JsVal 3; d_category_id := JsVal 3 |}.

(** * Properties *)

Section Properties.

Context {AccountRow : Type}.
Variable orm : OrmDefaults.
Implicit Types (db : @Db AccountRow) (d w : TransactionData).
Implicit Types (kr : Z * TransactionRow) (r : TransactionRow).

(** ** WHERE clauses *)

Lemma matches_empty kr : matches empty_object kr = true.
Proof. reflexivity. Qed.

Lemma matches_id k kr :
  matches (set_d_id (JsVal k) empty_object) kr = true ↔ kr.1 = k.
Proof.
  unfold matches; simpl. rewrite !andb_true_r, bool_decide_eq_true.
  split; congruence.
Qed.

Lemma matches_account_id a kr :
  matches (set_d_account_id (JsVal a) empty_object) kr = true
  ↔ account_id kr.2 = a.
Proof.
  unfold matches; simpl. rewrite !andb_true_r, bool_decide_eq_true.
  split; congruence.
Qed.

(** Selecting on the key of a table finds the row of that key and nothing
    else. *)
Lemma filter_key {A : Type} (m : gmap Z A) (k : Z) :
  filter (λ ka : Z * A, ka.1 = k) (map_to_list m)
  = match m !! k with Some a => [(k, a)] | None => [] end.
Proof.
  destruct (m !! k) as [a|] eqn:Hk.
  - apply Permutation_singleton_r, NoDup_Permutation.
    + apply NoDup_filter, NoDup_map_to_list.
    + apply NoDup_singleton.
    + intros [k' a']. rewrite list_elem_of_filter, elem_of_map_to_list.
      rewrite list_elem_of_singleton. simpl. split.
      * intros [-> Hk']. congruence.
      * intros [= -> ->]. done.
  - apply elem_of_nil_inv. intros [k' a'].
    rewrite list_elem_of_filter, elem_of_map_to_list. simpl.
    intros [-> Hk']. congruence.
Qed.

Lemma select_where_all db :
  select_where empty_object db = map_to_list (transactions db).
Proof.
  unfold select_where. induction (map_to_list (transactions db)) as [|x l IH].
  - done.
  - rewrite filter_cons_True by apply matches_empty. by rewrite IH.
Qed.

Lemma select_where_id db k :
  select_where (set_d_id (JsVal k) empty_object) db
  = match transactions db !! k with Some r => [(k, r)] | None => [] end.
Proof.
  unfold select_where. rewrite <- filter_key.
  apply list_filter_iff. intros kr. apply matches_id.
Qed.

Lemma select_where_account_id db a :
  select_where (set_d_account_id (JsVal a) empty_object) db
  = filter (λ kr, account_id kr.2 = a) (map_to_list (transactions db)).
Proof.
  unfold select_where. apply list_filter_iff. intros kr.
  apply matches_account_id.
Qed.

(** ** Reading *)

Lemma load_all_run db (ms : list Transaction) :
  load_all ms db = (Fulfilled (with_relations db <$> ms), db).
Proof.
  induction ms as [|m ms IH]; [done|].
  simpl. unfold then_ at 1. simpl. unfold then_. by rewrite IH.
Qed.

Lemma getTransaction_run db id :
  getTransaction id db
  = match transactions db !! id with
    | Some r => (Fulfilled (with_relations db (model_of_row (id, r))), db)
    | None => (Rejected NotFoundError, db)
    end.
Proof.
  unfold getTransaction, then_, fetch_require. simpl.
  rewrite select_where_id. by destruct (transactions db !! id).
Qed.

Lemma getTransactions_run db accountId :
  getTransactions accountId db
  = (Fulfilled
       ((λ kr, with_relations db (model_of_row kr))
          <$> select_where
                (if truthy_number accountId
                 then set_d_account_id accountId empty_object
                 else empty_object) db),
     db).
Proof.
  unfold getTransactions, then_, where_fetchAll.
  by rewrite load_all_run, <- list_fmap_compose.
Qed.

(** ** Writing *)

Lemma row_of_valid_data db d old :
  valid_data db d →
  ∃ r, row_of_data old d = Some r ∧ fk_check db r = true
       ∧ ∀ k, data_of_row k r = set_d_id (JsVal k) d.
Proof.
  destruct d as [i dt py mm am ac ct].
  intros (Hdt & Hpy & Hmm & Ham & Hac & Hct); simpl in *.
  destruct dt as [| |dt], py as [| |py], mm as [| |mm], am as [| |am];
    try discriminate.
  destruct ac as [| |ac]; try (by destruct Hac).
  destruct ct as [| |ct]; try (by destruct Hct).
  simpl in *. eexists. split; [reflexivity|]. split; [|done].
  unfold fk_check; simpl. by rewrite !bool_decide_eq_true_2.
Qed.

Lemma save_new db d :
  has_value (d_id d) = false →
  save orm (new_Transaction d) db = insert (new_Transaction d) db.
Proof. unfold save; simpl. by destruct (d_id d). Qed.

Lemma save_existing db d k :
  d_id d = JsVal k →
  save orm (new_Transaction d) db = update orm k (new_Transaction d) db.
Proof. unfold save; simpl. by intros ->. Qed.

Lemma destroy_removes db id :
  transactions (deleteTransaction orm id db).2 !! id = None.
Proof.
  unfold deleteTransaction, destroy; simpl.
  destruct (transactions db !! id) eqn:Hid; simpl.
  - apply lookup_delete_eq.
  - by destruct (destroy_require orm).
Qed.

(** ** The store invariants are kept by every operation of the service *)

Lemma seq_ok_save db d :
  seq_ok db → seq_ok (saveTransaction orm d db).2.
Proof.
  intros [Hpos Hlt]. unfold saveTransaction, save; simpl.
  assert (seq_ok (with_seq (transactions_seq db + 1) db)) as Hnext.
  { split; simpl; [lia|]. intros k r Hr. apply Hlt in Hr. simpl in *. lia. }
  destruct (d_id d) as [| |k] eqn:Hid.
  - unfold insert; simpl. rewrite Hid.
    destruct (row_of_data None d) as [r|]; [|done].
    destruct (transactions db !! transactions_seq db) eqn:Hk; [done|].
    destruct (fk_check db r); [|done].
    split; simpl; [lia|]. intros k r'.
    rewrite lookup_insert. case_decide; [intros _; lia|].
    intros Hr'. apply Hlt in Hr'. simpl in *. lia.
  - unfold insert; simpl. by rewrite Hid.
  - unfold update. destruct (transactions db !! k) as [old|] eqn:Hk; simpl.
    + destruct (row_of_data (Some old) d) as [r|]; [|done].
      destruct (fk_check db r); [|done].
      split; simpl; [done|]. intros k' r'.
      rewrite lookup_insert. case_decide as Hkk; [|by apply Hlt].
      intros _. subst k'. by apply (Hlt k old).
    + by destruct (save_require orm).
Qed.

Lemma fk_ok_save db d :
  fk_ok db → fk_ok (saveTransaction orm d db).2.
Proof.
  intros Hfk. unfold saveTransaction, save; simpl.
  destruct (d_id d) as [| |k] eqn:Hid.
  - unfold insert; simpl. rewrite Hid.
    destruct (row_of_data None d) as [r|]; [|done].
    destruct (transactions db !! transactions_seq db) eqn:Hk; [done|].
    destruct (fk_check db r) eqn:Hr; [|done].
    intros k r'. simpl. rewrite lookup_insert. case_decide.
    + by intros [= <-].
    + apply Hfk.
  - unfold insert; simpl. by rewrite Hid.
  - unfold update. destruct (transactions db !! k) as [old|] eqn:Hk; simpl.
    + destruct (row_of_data (Some old) d) as [r|]; [|done].
      destruct (fk_check db r) eqn:Hr; [|done].
      intros k' r'. simpl. rewrite lookup_insert. case_decide.
      * by intros [= <-].
      * apply Hfk.
    + by destruct (save_require orm).
Qed.

Lemma seq_ok_delete db id :
  seq_ok db → seq_ok (deleteTransaction orm id db).2.
Proof.
  intros [Hpos Hlt]. unfold deleteTransaction, destroy; simpl.
  destruct (transactions db !! id) eqn:Hid; simpl.
  - split; simpl; [done|]. intros k r.
    rewrite lookup_delete. case_decide; [done|]. apply Hlt.
  - by destruct (destroy_require orm).
Qed.

Lemma fk_ok_delete db id :
  fk_ok db → fk_ok (deleteTransaction orm id db).2.
Proof.
  intros Hfk. unfold deleteTransaction, destroy; simpl.
  destruct (transactions db !! id) eqn:Hid; simpl.
  - intros k r. simpl. rewrite lookup_delete. case_decide; [done|].
    apply Hfk.
  - by destruct (destroy_require orm).
Qed.

(** ** The claims about single records *)

(** C3. For every integer [id]: when no transaction row has that id,
    [getTransaction id] rejects with the not-found error; when a row has it,
    the call fulfils with that transaction record, and the [account] and
    [category] relations attached to it are the rows its foreign keys
    name, neither of them empty. The store is one that keeps referential
    integrity. *)
Theorem getTransaction_found_or_not_found db id :
  fk_ok db →
  match transactions db !! id with
  | None => getTransaction id db = (Rejected NotFoundError, db)
  | Some r =>
      ∃ a c,
        accounts db !! account_id r = Some a ∧
        categories db !! category_id r = Some c ∧
        getTransaction id db
        = (Fulfilled {| attributes := data_of_row id r;
                        account := Loaded (Some a);
                        category := Loaded (Some c) |}, db)
  end.
Proof.
  intros Hfk. rewrite getTransaction_run.
  destruct (transactions db !! id) as [r|] eqn:Hid; [|done].
  specialize (Hfk id r Hid). simpl in Hfk. unfold fk_check in Hfk.
  apply andb_true_iff in Hfk as [Ha Hc].
  apply bool_decide_eq_true in Ha as [a Ha].
  apply bool_decide_eq_true in Hc as [c Hc].
  exists a, c. split; [done|]. split; [done|].
  unfold with_relations, model_of_row; simpl. by rewrite Ha, Hc.
Qed.

(** C7. For every integer [id] and every database state, once
    [deleteTransaction id] has settled, [getTransaction id] run on the
    resulting state rejects with the not-found error. *)
Theorem getTransaction_after_deleteTransaction db id :
  let db' := (deleteTransaction orm id db).2 in
  getTransaction id db' = (Rejected NotFoundError, db').
Proof.
  intros db'. rewrite getTransaction_run.
  unfold db'. by rewrite destroy_removes.
Qed.

(** C8. [createTransaction] and [updateTransaction] are the same function:
    both are [saveTransaction], and for every transaction data object it is
    the identifier in the data alone that selects between the UPDATE and the
    INSERT. *)
Theorem createTransaction_updateTransaction_same :
  @createTransaction AccountRow orm = @updateTransaction AccountRow orm ∧
  ∀ d db,
    createTransaction orm d db = saveTransaction orm d db ∧
    updateTransaction orm d db = saveTransaction orm d db ∧
    saveTransaction orm d db
    = match d_id d with
      | JsVal k => update orm k (new_Transaction d) db
      | _ => insert (new_Transaction d) db
      end.
Proof.
  split; [reflexivity|]. intros d db. split; [reflexivity|].
  split; [reflexivity|]. unfold saveTransaction, save; simpl.
  by destruct (d_id d).
Qed.

(** C4. For every valid transaction data object that carries no identifier,
    [createTransaction] inserts a new row and fulfils with a record whose
    identifier is a positive integer that no row had before and whose every
    other field equals the field of the input. *)
Theorem createTransaction_inserts db d :
  seq_ok db → valid_data db d → d_id d = JsUndefined →
  ∃ k r,
    createTransaction orm d db
    = (Fulfilled (new_Transaction (set_d_id (JsVal k) d)),
       with_seq (k + 1) (with_transactions (<[k := r]> (transactions db)) db))
    ∧ 0 < k ∧ transactions db !! k = None
    ∧ data_of_row k r = set_d_id (JsVal k) d.
Proof.
  intros [Hpos Hlt] Hvalid Hnew.
  destruct (row_of_valid_data db d None Hvalid) as (r & Hr & Hfk & Hdata).
  exists (transactions_seq db), r.
  assert (transactions db !! transactions_seq db = None) as Hfresh.
  { destruct (transactions db !! transactions_seq db) as [r'|] eqn:Hk; [|done].
    apply Hlt in Hk. simpl in Hk. lia. }
  split; [|by auto].
  unfold createTransaction, saveTransaction.
  rewrite save_new by (by rewrite Hnew).
  unfold insert; simpl. by rewrite Hnew, Hr, Hfresh, Hfk.
Qed.

(** C5. For every valid transaction data object whose identifier is that of
    an existing row, [updateTransaction] replaces every field of the row
    kept under that identifier and fulfils with a record whose fields,
    identifier included, equal the input. *)
Theorem updateTransaction_replaces db d k old :
  valid_data db d → d_id d = JsVal k → transactions db !! k = Some old →
  ∃ r,
    updateTransaction orm d db
    = (Fulfilled (new_Transaction d),
       with_transactions (<[k := r]> (transactions db)) db)
    ∧ data_of_row k r = d.
Proof.
  intros Hvalid Hid Hold.
  destruct (row_of_valid_data db d (Some old) Hvalid) as (r & Hr & Hfk & Hdata).
  exists r. split.
  - unfold updateTransaction, saveTransaction.
    rewrite (save_existing db d k) by done.
    unfold update; simpl. by rewrite Hold, Hr, Hfk.
  - rewrite Hdata. destruct d; simpl in *. by subst.
Qed.

(** ** The claims about collections *)

(** C10. For every database state, [getTransactions] called with a falsy
    account identifier ([0], [null] or [undefined]) settles as the call
    without argument does, with all the transaction rows: the account
    filter is applied only for a truthy [accountId]. *)
Theorem getTransactions_falsy_accountId db accountId :
  truthy_number accountId = false →
  getTransactions accountId db = getTransactions JsUndefined db ∧
  getTransactions accountId db
  = (Fulfilled (loaded_rows db (map_to_list (transactions db))), db).
Proof.
  intros Hfalsy. rewrite !getTransactions_run, Hfalsy; simpl.
  by rewrite select_where_all.
Qed.

(** Whatever the argument, [getTransactions] returns rows of the table. *)
Lemma getTransactions_subset db accountId ms :
  getTransactions accountId db = (Fulfilled ms, db) →
  ms ⊆ loaded_rows db (map_to_list (transactions db)).
Proof.
  rewrite getTransactions_run. intros [= <-] m.
  rewrite list_elem_of_fmap. intros (kr & -> & Hkr).
  apply (list_elem_of_fmap_2 (λ kr, with_relations db (model_of_row kr))).
  unfold select_where in Hkr.
  by apply list_elem_of_filter in Hkr as [_ Hkr].
Qed.

(** C6, amended. For every database state, [getTransactions] without
    argument fulfils with all the transaction rows, and for every integer
    [accountId] other than [0], [getTransactions accountId] fulfils with
    exactly the rows whose [account_id] equals [accountId], a subset of the
    unfiltered result. *)
Theorem getTransactions_by_account db (accountId : Z) :
  accountId ≠ 0 →
  ∃ all ms,
    getTransactions JsUndefined db = (Fulfilled all, db) ∧
    all = loaded_rows db (map_to_list (transactions db)) ∧
    getTransactions (JsVal accountId) db = (Fulfilled ms, db) ∧
    ms = loaded_rows db
           (filter (λ kr, account_id kr.2 = accountId)
                   (map_to_list (transactions db))) ∧
    ms ⊆ all.
Proof.
  intros Hnz. do 2 eexists.
  split; [by apply getTransactions_falsy_accountId|]. split; [done|].
  assert (getTransactions (JsVal accountId) db
          = (Fulfilled (loaded_rows db
               (filter (λ kr, account_id kr.2 = accountId)
                       (map_to_list (transactions db)))), db)) as Hrun.
  { rewrite getTransactions_run. simpl.
    destruct (Z.eqb_spec accountId 0) as [|_]; [done|]. simpl.
    by rewrite select_where_account_id. }
  split; [exact Hrun|]. split; [done|].
  by eapply getTransactions_subset.
Qed.

(** ** The aggregate query *)

Lemma filter_fmap {A B : Type} (f : A → B) (P : B → Prop)
    `{!∀ y, Decision (P y)} (l : list A) :
  filter P (f <$> l) = f <$> filter (λ x, P (f x)) l.
Proof.
  induction l as [|x l IH]; [done|].
  rewrite fmap_cons, !filter_cons. case_decide; by rewrite IH.
Qed.

Lemma sql_sum_cons (x : Z) (l : list Z) :
  sql_sum (x :: l) = Some (foldr Z.add 0 (x :: l)).
Proof. reflexivity. Qed.

Lemma group_key_join db kr :
  group_key (join_category db kr)
  = match categories db !! category_id kr.2 with
    | Some _ => Some (category_id kr.2)
    | None => None
    end.
Proof.
  unfold group_key, join_category; simpl.
  by destruct (categories db !! category_id kr.2).
Qed.

(** The keys of the result are the distinct keys of the joined rows. *)
Lemma run_groupBy_keys qb db :
  Aggregate.cat_id <$> run_groupBy qb db
  = remove_dups
      (group_key
         <$> filter (λ j, where_holds qb j = true) (leftOuterJoin db)).
Proof.
  unfold run_groupBy. rewrite <- list_fmap_compose.
  rewrite <- (list_fmap_id (remove_dups _)) at 2.
  by apply list_fmap_ext.
Qed.

Lemma run_groupBy_NoDup qb db :
  NoDup (Aggregate.cat_id <$> run_groupBy qb db).
Proof. rewrite run_groupBy_keys. apply NoDup_remove_dups. Qed.

(** A key is in the result exactly when a transaction kept by the WHERE
    clause joins to it. *)
Lemma run_groupBy_key_iff qb db (key : option Z) :
  key ∈ Aggregate.cat_id <$> run_groupBy qb db
  ↔ ∃ k r, transactions db !! k = Some r
           ∧ where_holds qb (join_category db (k, r)) = true
           ∧ group_key (join_category db (k, r)) = key.
Proof.
  rewrite run_groupBy_keys, elem_of_remove_dups, list_elem_of_fmap.
  unfold leftOuterJoin. split.
  - intros (j & -> & Hj). apply list_elem_of_filter in Hj as [Hw Hj].
    apply list_elem_of_fmap in Hj as ([k r] & -> & Hkr).
    apply elem_of_map_to_list in Hkr. by exists k, r.
  - intros (k & r & Hkr & Hw & <-). exists (join_category db (k, r)).
    split; [done|]. apply list_elem_of_filter. split; [done|].
    apply list_elem_of_fmap_2. by apply elem_of_map_to_list.
Qed.

(** Every row carries the sum over the transactions of its group. *)
Lemma run_groupBy_amount qb db (row : Aggregate.t) :
  row ∈ run_groupBy qb db →
  Aggregate.amount row
  = Some (sum_amounts
            (filter (λ kr, group_key (join_category db kr)
                           = Aggregate.cat_id row
                           ∧ where_holds qb (join_category db kr) = true)
                    (map_to_list (transactions db)))).
Proof.
  unfold run_groupBy, leftOuterJoin. rewrite filter_fmap.
  intros Hrow. apply list_elem_of_fmap in Hrow as (key & -> & Hkey).
  apply elem_of_remove_dups, list_elem_of_fmap in Hkey as (j & -> & Hj).
  apply list_elem_of_fmap in Hj as (kr & -> & Hkr).
  simpl. rewrite filter_fmap, list_filter_filter, <- list_fmap_compose.
  unfold sum_amounts.
  set (l := filter _ (map_to_list (transactions db))).
  assert (kr ∈ l) as Hin.
  { apply list_elem_of_filter in Hkr as [Hw Hkr].
    apply list_elem_of_filter. by repeat split. }
  destruct l as [|x l]; [by apply elem_of_nil in Hin|].
  by rewrite fmap_cons, sql_sum_cons.
Qed.

Lemma group_key_join_Some db kr cid :
  group_key (join_category db kr) = Some cid
  ↔ category_id kr.2 = cid ∧ is_Some (categories db !! cid).
Proof.
  rewrite group_key_join. split.
  - destruct (categories db !! category_id kr.2) eqn:Hc; [|done].
    intros [= <-]. by rewrite Hc.
  - intros [<- [x Hx]]. by rewrite Hx.
Qed.

Lemma group_key_join_None db kr :
  group_key (join_category db kr) = None ↔ uncategorised db kr.
Proof.
  rewrite group_key_join. unfold uncategorised.
  by destruct (categories db !! category_id kr.2).
Qed.

Lemma where_holds_none (j : Joined) :
  where_holds knex_select_from_leftOuterJoin j = true.
Proof. reflexivity. Qed.

Lemma where_holds_whereBetween (startDate endDate : js_opt Z) (j : Joined) :
  where_holds (whereBetween startDate endDate knex_select_from_leftOuterJoin) j
  = between startDate endDate (txn_date (t j).2).
Proof. unfold where_holds; simpl. apply andb_true_r. Qed.

Lemma between_spec (lo hi dt : Z) :
  between (JsVal lo) (JsVal hi) dt = true ↔ lo ≤ dt ≤ hi.
Proof. unfold between. rewrite andb_true_iff, !Z.leb_le. done. Qed.

Lemma getTransactionsByCategory_run db startDate endDate :
  getTransactionsByCategory startDate endDate db
  = (Fulfilled
       (run_groupBy
          (if truthy_object startDate && truthy_object endDate
           then whereBetween startDate endDate knex_select_from_leftOuterJoin
           else knex_select_from_leftOuterJoin) db), db).
Proof. reflexivity. Qed.

Lemma where_holds_passes startDate endDate (j : Joined) :
  where_holds
    (if truthy_object startDate && truthy_object endDate
     then whereBetween startDate endDate knex_select_from_leftOuterJoin
     else knex_select_from_leftOuterJoin) j
  = passes startDate endDate (t j).2.
Proof.
  unfold passes. destruct (truthy_object startDate && truthy_object endDate).
  - apply where_holds_whereBetween.
  - reflexivity.
Qed.

(** C9. For every database state, [getTransactionsByCategory] called with
    one of [startDate], [endDate] missing (absent or [null]) settles as the
    call with neither date does: the date filter is dropped and the call
    fulfils, no error is raised. *)
Theorem getTransactionsByCategory_one_date db startDate endDate :
  has_value startDate = false ∨ has_value endDate = false →
  getTransactionsByCategory startDate endDate db
  = getTransactionsByCategory JsUndefined JsUndefined db ∧
  ∃ rows, getTransactionsByCategory startDate endDate db = (Fulfilled rows, db).
Proof.
  intros Hmissing. rewrite !getTransactionsByCategory_run.
  assert (truthy_object startDate && truthy_object endDate = false) as ->.
  { destruct Hmissing; destruct startDate, endDate; done. }
  split; [done|]. by eexists.
Qed.

(** C1, amended. For every database state and every pair of arguments,
    [getTransactionsByCategory] fulfils with at most one row for each
    category id, and a category has a row exactly when some transaction that
    passes the date condition carries its id: the join keeps every
    transaction, not every category. No row has a null amount. *)
Theorem getTransactionsByCategory_rows db startDate endDate :
  ∃ rows,
    getTransactionsByCategory startDate endDate db = (Fulfilled rows, db) ∧
    NoDup (Aggregate.cat_id <$> rows) ∧
    (∀ cid,
       (∃ row, row ∈ rows ∧ Aggregate.cat_id row = Some cid)
       ↔ is_Some (categories db !! cid)
         ∧ ∃ k r, transactions db !! k = Some r ∧ category_id r = cid
                  ∧ passes startDate endDate r = true) ∧
    (∀ row, row ∈ rows → is_Some (Aggregate.amount row)).
Proof.
  eexists. split; [apply getTransactionsByCategory_run|].
  split; [apply run_groupBy_NoDup|]. split.
  - intros cid. split.
    + intros (row & Hrow & Hcid).
      apply (list_elem_of_fmap_2 Aggregate.cat_id) in Hrow.
      rewrite Hcid in Hrow.
      apply run_groupBy_key_iff in Hrow as (k & r & Hkr & Hw & Hkey).
      apply group_key_join_Some in Hkey as [Hc Hsome].
      rewrite where_holds_passes in Hw. split; [done|]. by exists k, r.
    + intros (Hsome & k & r & Hkr & Hc & Hp).
      assert (Some cid ∈ Aggregate.cat_id
                <$> run_groupBy
                      (if truthy_object startDate && truthy_object endDate
                       then whereBetween startDate endDate
                              knex_select_from_leftOuterJoin
                       else knex_select_from_leftOuterJoin) db) as Hin.
      { apply run_groupBy_key_iff. exists k, r. split; [done|].
        rewrite where_holds_passes. split; [done|].
        by apply group_key_join_Some. }
      apply list_elem_of_fmap in Hin as (row & Hcid & Hrow). by exists row.
  - intros row Hrow. apply run_groupBy_amount in Hrow. by rewrite Hrow.
Qed.

(** C2. For every database state and every pair of dates, each row of
    [getTransactionsByCategory startDate endDate] carries the sum of the
    amounts of the transactions of the row's category whose [txn_date] lies
    in the inclusive range; with both dates omitted each row carries the sum
    over all the transactions of its category. Rows are grouped by category
    id: no two rows share one, and the row without category id sums the
    transactions whose category is missing. *)
Theorem getTransactionsByCategory_amounts db (startDate endDate : Z) :
  ∃ ranged overall,
    getTransactionsByCategory (JsVal startDate) (JsVal endDate) db
    = (Fulfilled ranged, db) ∧
    getTransactionsByCategory JsUndefined JsUndefined db
    = (Fulfilled overall, db) ∧
    NoDup (Aggregate.cat_id <$> ranged) ∧
    NoDup (Aggregate.cat_id <$> overall) ∧
    (∀ row cid, row ∈ ranged → Aggregate.cat_id row = Some cid →
       Aggregate.amount row
       = Some (sum_amounts
                 (filter (in_category_between cid startDate endDate)
                         (map_to_list (transactions db))))) ∧
    (∀ row, row ∈ ranged → Aggregate.cat_id row = None →
       Aggregate.amount row
       = Some (sum_amounts
                 (filter (uncategorised_between db startDate endDate)
                         (map_to_list (transactions db))))) ∧
    (∀ row cid, row ∈ overall → Aggregate.cat_id row = Some cid →
       Aggregate.amount row
       = Some (sum_amounts
                 (filter (in_category cid) (map_to_list (transactions db))))) ∧
    (∀ row, row ∈ overall → Aggregate.cat_id row = None →
       Aggregate.amount row
       = Some (sum_amounts
                 (filter (uncategorised db) (map_to_list (transactions db))))).
Proof.
  do 2 eexists.
  split; [apply getTransactionsByCategory_run|].
  split; [apply getTransactionsByCategory_run|]. simpl.
  split; [apply run_groupBy_NoDup|]. split; [apply run_groupBy_NoDup|].
  repeat split.
  - intros row cid Hrow Hcid.
    assert (is_Some (categories db !! cid)) as Hsome.
    { pose proof (list_elem_of_fmap_2 Aggregate.cat_id _ _ Hrow) as Hin.
      rewrite Hcid in Hin.
      apply run_groupBy_key_iff in Hin as (k & r & _ & _ & Hkey).
      by apply group_key_join_Some in Hkey as [_ ?]. }
    rewrite (run_groupBy_amount _ _ _ Hrow), Hcid. do 2 f_equal.
    apply list_filter_iff. intros kr.
    rewrite group_key_join_Some, where_holds_whereBetween, between_spec.
    unfold in_category_between. tauto.
  - intros row Hrow Hcid.
    rewrite (run_groupBy_amount _ _ _ Hrow), Hcid. do 2 f_equal.
    apply list_filter_iff. intros kr.
    rewrite group_key_join_None, where_holds_whereBetween, between_spec.
    done.
  - intros row cid Hrow Hcid.
    assert (is_Some (categories db !! cid)) as Hsome.
    { pose proof (list_elem_of_fmap_2 Aggregate.cat_id _ _ Hrow) as Hin.
      rewrite Hcid in Hin.
      apply run_groupBy_key_iff in Hin as (k & r & _ & _ & Hkey).
      by apply group_key_join_Some in Hkey as [_ ?]. }
    rewrite (run_groupBy_amount _ _ _ Hrow), Hcid. do 2 f_equal.
    apply list_filter_iff. intros kr.
    rewrite group_key_join_Some. unfold in_category.
    pose proof (where_holds_none (join_category db kr)). tauto.
  - intros row Hrow Hcid.
    rewrite (run_groupBy_amount _ _ _ Hrow), Hcid. do 2 f_equal.
    apply list_filter_iff. intros kr.
    rewrite group_key_join_None.
    pose proof (where_holds_none (join_category db kr)). tauto.
Qed.

(** * Further properties of the service *)

(** ** What a save does to the store *)

Lemma seq_fresh db :
  seq_ok db → transactions db !! transactions_seq db = None.
Proof.
  intros [_ Hlt].
  destruct (transactions db !! transactions_seq db) as [r|] eqn:Hk; [|done].
  apply Hlt in Hk. simpl in Hk. lia.
Qed.

Lemma createTransaction_run db d :
  seq_ok db → valid_data db d → d_id d = JsUndefined →
  ∃ r,
    createTransaction orm d db
    = (Fulfilled (new_Transaction (set_d_id (JsVal (transactions_seq db)) d)),
       with_seq (transactions_seq db + 1)
         (with_transactions
            (<[transactions_seq db := r]> (transactions db)) db))
    ∧ fk_check db r = true
    ∧ data_of_row (transactions_seq db) r
      = set_d_id (JsVal (transactions_seq db)) d.
Proof.
  intros Hseq Hvalid Hnew.
  destruct (row_of_valid_data db d None Hvalid) as (r & Hr & Hfk & Hdata).
  exists r. split; [|by auto].
  unfold createTransaction, saveTransaction.
  rewrite save_new by (by rewrite Hnew).
  unfold insert; simpl. by rewrite Hnew, Hr, (seq_fresh db Hseq), Hfk.
Qed.

Lemma updateTransaction_run db d k old :
  valid_data db d → d_id d = JsVal k → transactions db !! k = Some old →
  ∃ r,
    updateTransaction orm d db
    = (Fulfilled (new_Transaction d),
       with_transactions (<[k := r]> (transactions db)) db)
    ∧ fk_check db r = true ∧ data_of_row k r = d.
Proof.
  intros Hvalid Hid Hold.
  destruct (row_of_valid_data db d (Some old) Hvalid) as (r & Hr & Hfk & Hdata).
  exists r. split; [|split; [done|]].
  - unfold updateTransaction, saveTransaction.
    rewrite (save_existing db d k) by done.
    unfold update; simpl. by rewrite Hold, Hr, Hfk.
  - rewrite Hdata. destruct d; simpl in *. by subst.
Qed.

Lemma fk_check_related db r :
  fk_check db r = true →
  ∃ a c, accounts db !! account_id r = Some a
         ∧ categories db !! category_id r = Some c.
Proof.
  unfold fk_check. intros [Ha Hc]%andb_true_iff.
  apply bool_decide_eq_true in Ha as [a Ha].
  apply bool_decide_eq_true in Hc as [c Hc]. by exists a, c.
Qed.

(** X1. Round trip of a creation: once [createTransaction] has stored valid
    data, [getTransaction] of the identifier it returned fulfils with the
    input fields under that identifier, both relations resolved. *)
Theorem getTransaction_after_createTransaction db d :
  seq_ok db → valid_data db d → d_id d = JsUndefined →
  ∃ k a c db',
    createTransaction orm d db
    = (Fulfilled (new_Transaction (set_d_id (JsVal k) d)), db') ∧
    getTransaction k db'
    = (Fulfilled {| attributes := set_d_id (JsVal k) d;
                    account := Loaded (Some a);
                    category := Loaded (Some c) |}, db').
Proof.
  intros Hseq Hvalid Hnew.
  destruct (createTransaction_run db d Hseq Hvalid Hnew)
    as (r & Hrun & Hfk & Hdata).
  destruct (fk_check_related db r Hfk) as (a & c & Ha & Hc).
  exists (transactions_seq db), a, c. eexists. split; [exact Hrun|].
  rewrite getTransaction_run. simpl. rewrite lookup_insert_eq.
  unfold with_relations, model_of_row; simpl.
  by rewrite Ha, Hc, <- Hdata.
Qed.

(** X2. Round trip of an update: once [updateTransaction] has replaced an
    existing row by valid data, [getTransaction] of that identifier fulfils
    with exactly the input fields, both relations resolved. *)
Theorem getTransaction_after_updateTransaction db d k old :
  valid_data db d → d_id d = JsVal k → transactions db !! k = Some old →
  ∃ a c db',
    updateTransaction orm d db = (Fulfilled (new_Transaction d), db') ∧
    getTransaction k db'
    = (Fulfilled {| attributes := d; account := Loaded (Some a);
                    category := Loaded (Some c) |}, db').
Proof.
  intros Hvalid Hid Hold.
  destruct (updateTransaction_run db d k old Hvalid Hid Hold)
    as (r & Hrun & Hfk & Hdata).
  destruct (fk_check_related db r Hfk) as (a & c & Ha & Hc).
  exists a, c. eexists. split; [exact Hrun|].
  rewrite getTransaction_run. simpl. rewrite lookup_insert_eq.
  unfold with_relations, model_of_row; simpl.
  rewrite Hdata. rewrite <- Hdata at 1 2. simpl. by rewrite Ha, Hc.
Qed.

(** X3. Whatever the data, [updateTransaction] of data that carries an
    identifier never adds or removes a row and touches no row but the one
    of that identifier: the set of identifiers, the sequence, the other
    rows and the other tables are as before. In particular an identifier
    that no row has creates nothing. *)
Theorem updateTransaction_touches_one_row db d k :
  d_id d = JsVal k →
  let db' := (updateTransaction orm d db).2 in
  dom (transactions db') = dom (transactions db) ∧
  (∀ k', k' ≠ k → transactions db' !! k' = transactions db !! k') ∧
  transactions_seq db' = transactions_seq db ∧
  accounts db' = accounts db ∧ categories db' = categories db.
Proof.
  intros Hid db'. unfold db', updateTransaction, saveTransaction.
  rewrite (save_existing db d k) by done. unfold update; simpl.
  destruct (transactions db !! k) as [old|] eqn:Hold.
  - destruct (row_of_data (Some old) d) as [r|]; [|done].
    destruct (fk_check db r); [|done]. simpl.
    split; [|split; [|done]].
    + rewrite dom_insert_L. apply subseteq_union_1_L, singleton_subseteq_l.
      by apply elem_of_dom_2 in Hold.
    + intros k' Hne. by rewrite lookup_insert_ne.
  - by destruct (save_require orm).
Qed.

(** X4. Whatever the data, [createTransaction] of data without identifier
    keeps every row the table had, and leaves the other tables alone. *)
Theorem createTransaction_keeps_rows db d :
  has_value (d_id d) = false →
  let db' := (createTransaction orm d db).2 in
  (∀ k r, transactions db !! k = Some r → transactions db' !! k = Some r) ∧
  accounts db' = accounts db ∧ categories db' = categories db.
Proof.
  intros Hnew db'. unfold db', createTransaction, saveTransaction.
  rewrite save_new by done. unfold insert; simpl.
  destruct (d_id d) as [| |k0]; [|done..].
  destruct (row_of_data None d) as [r|]; [|done].
  destruct (transactions db !! transactions_seq db) eqn:Hfresh; [done|].
  destruct (fk_check db r); [|done]. simpl. split; [|done].
  intros k r' Hk. rewrite lookup_insert_ne; [done|]. congruence.
Qed.

Lemma getTransactions_tables db db' accountId :
  transactions db' = transactions db → accounts db' = accounts db →
  categories db' = categories db →
  (getTransactions accountId db').1 = (getTransactions accountId db).1.
Proof.
  intros Ht Ha Hc. rewrite !getTransactions_run. simpl.
  unfold select_where, with_relations. by rewrite Ht, Ha, Hc.
Qed.

Lemma getTransaction_tables db db' id :
  transactions db' = transactions db → accounts db' = accounts db →
  categories db' = categories db →
  (getTransaction id db').1 = (getTransaction id db).1.
Proof.
  intros Ht Ha Hc. rewrite !getTransaction_run, Ht.
  destruct (transactions db !! id); [|done]. simpl.
  unfold with_relations. by rewrite Ha, Hc.
Qed.

Lemma getTransactionsByCategory_tables db db' startDate endDate :
  transactions db' = transactions db → categories db' = categories db →
  (getTransactionsByCategory startDate endDate db').1
  = (getTransactionsByCategory startDate endDate db).1.
Proof.
  intros Ht Hc. rewrite !getTransactionsByCategory_run. simpl.
  assert (leftOuterJoin db' = leftOuterJoin db) as Hjoin.
  { unfold leftOuterJoin. rewrite Ht. apply list_fmap_ext.
    intros _ kr _. unfold join_category. by rewrite Hc. }
  unfold run_groupBy. by rewrite Hjoin.
Qed.

Lemma rejected_save_tables db d e :
  (saveTransaction orm d db).1 = Rejected e →
  transactions (saveTransaction orm d db).2 = transactions db ∧
  accounts (saveTransaction orm d db).2 = accounts db ∧
  categories (saveTransaction orm d db).2 = categories db.
Proof.
  unfold saveTransaction, save; simpl.
  destruct (d_id d) as [| |k] eqn:Hid; unfold insert, update; simpl;
    rewrite ?Hid;
    repeat (match goal with
            | |- context [match ?x with _ => _ end] => destruct x eqn:?
            end; simpl; try done);
    done.
Qed.

(** X5. A save that rejects, through [createTransaction] or through
    [updateTransaction], has written no row: the three tables are as they
    were, so that every read answers as it did before the call. Only the
    identifier sequence may have moved on, by the value a refused INSERT
    has taken from it. *)
Theorem rejected_save_changes_nothing db d e :
  (saveTransaction orm d db).1 = Rejected e →
  let db' := (saveTransaction orm d db).2 in
  (createTransaction orm d db).2 = db' ∧ (updateTransaction orm d db).2 = db' ∧
  transactions db' = transactions db ∧
  accounts db' = accounts db ∧ categories db' = categories db ∧
  transactions_seq db ≤ transactions_seq db' ≤ transactions_seq db + 1 ∧
  (∀ id, (getTransaction id db').1 = (getTransaction id db).1) ∧
  (∀ accountId,
     (getTransactions accountId db').1 = (getTransactions accountId db).1) ∧
  (∀ startDate endDate,
     (getTransactionsByCategory startDate endDate db').1
     = (getTransactionsByCategory startDate endDate db).1).
Proof.
  intros Hrej db'.
  destruct (rejected_save_tables db d e Hrej) as (Ht & Ha & Hc).
  split; [done|]. split; [done|]. repeat (split; [done|]).
  split; [|split; [|split]].
  - clear Ht Ha Hc. unfold db'. revert Hrej.
    unfold saveTransaction, save; simpl.
    destruct (d_id d) as [| |k] eqn:Hid; unfold insert, update; simpl;
      rewrite ?Hid;
      repeat (match goal with
              | |- context [match ?x with _ => _ end] => destruct x eqn:?
              end; simpl; try done);
      simpl; try done; intros _; lia.
  - intros id. by apply getTransaction_tables.
  - intros accountId. by apply getTransactions_tables.
  - intros startDate endDate. by apply getTransactionsByCategory_tables.
Qed.

(** ** What a deletion does to the store *)

Lemma with_transactions_same db : with_transactions (transactions db) db = db.
Proof. by destruct db. Qed.

Lemma deleteTransaction_state db id :
  (deleteTransaction orm id db).2
  = with_transactions (delete id (transactions db)) db.
Proof.
  unfold deleteTransaction, destroy; simpl.
  destruct (transactions db !! id) eqn:Hid; [done|].
  rewrite delete_id, with_transactions_same by done.
  by destruct (destroy_require orm).
Qed.

(** X6. [deleteTransaction id] removes the row of that identifier and
    nothing else: the other rows, the sequence and the other tables are as
    before, and when no row has the identifier the store is unchanged. *)
Theorem deleteTransaction_removes_one_row db id :
  let db' := (deleteTransaction orm id db).2 in
  transactions db' = delete id (transactions db) ∧
  (∀ k, k ≠ id → transactions db' !! k = transactions db !! k) ∧
  transactions_seq db' = transactions_seq db ∧
  accounts db' = accounts db ∧ categories db' = categories db ∧
  (transactions db !! id = None → db' = db).
Proof.
  intros db'. unfold db'. rewrite deleteTransaction_state. simpl.
  split; [done|]. split; [intros k Hk; by rewrite lookup_delete_ne|].
  repeat (split; [done|]).
  intros Hnone. by rewrite delete_id, with_transactions_same.
Qed.

(** X7. Deleting the same identifier a second time leaves the store as the
    first deletion left it. *)
Theorem deleteTransaction_twice db id :
  (deleteTransaction orm id (deleteTransaction orm id db).2).2
  = (deleteTransaction orm id db).2.
Proof.
  rewrite !deleteTransaction_state. unfold with_transactions; simpl.
  by rewrite delete_delete_eq.
Qed.

(** X8. Creating a transaction and deleting the identifier it was given
    brings the transaction table back to what it was; only the sequence has
    moved on. *)
Theorem deleteTransaction_after_createTransaction db d :
  seq_ok db → valid_data db d → d_id d = JsUndefined →
  ∃ k db',
    createTransaction orm d db
    = (Fulfilled (new_Transaction (set_d_id (JsVal k) d)), db') ∧
    transactions (deleteTransaction orm k db').2 = transactions db ∧
    transactions_seq (deleteTransaction orm k db').2 = transactions_seq db + 1.
Proof.
  intros Hseq Hvalid Hnew.
  destruct (createTransaction_run db d Hseq Hvalid Hnew) as (r & Hrun & _).
  exists (transactions_seq db). eexists. split; [exact Hrun|].
  rewrite deleteTransaction_state. simpl. split; [|done].
  rewrite delete_insert_eq. by apply delete_id, seq_fresh.
Qed.

(** ** Reading *)

Lemma elem_of_getTransactions db accountId ms m :
  getTransactions accountId db = (Fulfilled ms, db) →
  m ∈ ms →
  ∃ k r, transactions db !! k = Some r
         ∧ m = with_relations db (model_of_row (k, r)).
Proof.
  rewrite getTransactions_run. intros [= <-].
  rewrite list_elem_of_fmap. intros ([k r] & -> & Hkr).
  unfold select_where in Hkr. apply list_elem_of_filter in Hkr as [_ Hkr].
  apply elem_of_map_to_list in Hkr. by exists k, r.
Qed.

(** X10. In a store that keeps referential integrity, every record that
    [getTransactions] returns has its account and its category attached,
    neither of them empty. *)
Theorem getTransactions_relations db accountId ms m :
  fk_ok db →
  getTransactions accountId db = (Fulfilled ms, db) →
  m ∈ ms →
  ∃ a c, account m = Loaded (Some a) ∧ category m = Loaded (Some c).
Proof.
  intros Hfk Hrun Hm.
  destruct (elem_of_getTransactions db accountId ms m Hrun Hm)
    as (k & r & Hkr & ->).
  destruct (fk_check_related db r (Hfk k r Hkr)) as (a & c & Ha & Hc).
  exists a, c. unfold with_relations, model_of_row; simpl.
  by rewrite Ha, Hc.
Qed.

(** X11. [getTransactions] lists every row once: the identifiers of the
    records it returns are pairwise distinct, whatever the argument, and
    without argument there are as many records as the table has rows. *)
Theorem getTransactions_distinct db accountId :
  ∃ ms all,
    getTransactions accountId db = (Fulfilled ms, db) ∧
    NoDup (record_id <$> ms) ∧
    getTransactions JsUndefined db = (Fulfilled all, db) ∧
    length all = size (transactions db).
Proof.
  do 2 eexists. split; [apply getTransactions_run|]. split; [|split].
  - rewrite <- list_fmap_compose. unfold select_where.
    apply NoDup_fmap_2_strong.
    + intros [k1 r1] [k2 r2] H1 H2 [= ->].
      apply list_elem_of_filter in H1 as [_ H1].
      apply list_elem_of_filter in H2 as [_ H2].
      apply elem_of_map_to_list in H1. apply elem_of_map_to_list in H2.
      congruence.
    + apply NoDup_filter, NoDup_map_to_list.
  - apply getTransactions_run.
  - simpl. by rewrite select_where_all, length_fmap, length_map_to_list.
Qed.

(** X12. [getTransaction id] fulfils with a record exactly when
    [getTransactions] without argument lists that record under that
    identifier. *)
Theorem getTransaction_iff_listed db id m :
  getTransaction id db = (Fulfilled m, db)
  ↔ ∃ all, getTransactions JsUndefined db = (Fulfilled all, db)
           ∧ m ∈ all ∧ record_id m = JsVal id.
Proof.
  rewrite getTransaction_run. split.
  - destruct (transactions db !! id) as [r|] eqn:Hid; [|done].
    intros [= <-]. eexists. split; [apply getTransactions_run|]. simpl.
    split; [|done]. rewrite select_where_all.
    apply (list_elem_of_fmap_2 (λ kr, with_relations db (model_of_row kr))).
    by apply elem_of_map_to_list.
  - intros (all & Hall & Hm & Hrid).
    destruct (elem_of_getTransactions db JsUndefined all m Hall Hm)
      as (k & r & Hkr & ->).
    injection Hrid as ->. by rewrite Hkr.
Qed.

(** X13. After [deleteTransaction id], [getTransactions] lists exactly the
    records it listed before, less the one of that identifier. *)
Theorem getTransactions_after_deleteTransaction db id m :
  let db' := (deleteTransaction orm id db).2 in
  (∃ after, getTransactions JsUndefined db' = (Fulfilled after, db')
            ∧ m ∈ after)
  ↔ (∃ before, getTransactions JsUndefined db = (Fulfilled before, db)
               ∧ m ∈ before ∧ record_id m ≠ JsVal id).
Proof.
  intros db'.
  assert (∀ x, with_relations db' x = with_relations db x) as Hrel.
  { intros x. unfold db'. by rewrite deleteTransaction_state. }
  assert (∀ k r, transactions db' !! k = Some r
                 ↔ id ≠ k ∧ transactions db !! k = Some r) as Hlook.
  { intros k r. unfold db'. rewrite deleteTransaction_state. simpl.
    apply lookup_delete_Some. }
  split.
  - intros (after & Hrun & Hm).
    destruct (elem_of_getTransactions db' JsUndefined after m Hrun Hm)
      as (k & r & Hkr & ->).
    apply Hlook in Hkr as [Hne Hkr]. rewrite Hrel.
    eexists. split; [apply getTransactions_run|]. simpl.
    rewrite select_where_all. split.
    + apply (list_elem_of_fmap_2 (λ kr, with_relations db (model_of_row kr))).
      by apply elem_of_map_to_list.
    + unfold record_id; simpl. congruence.
  - intros (before & Hrun & Hm & Hne).
    destruct (elem_of_getTransactions db JsUndefined before m Hrun Hm)
      as (k & r & Hkr & ->).
    eexists. split; [apply getTransactions_run|]. simpl.
    rewrite select_where_all, <- Hrel.
    apply (list_elem_of_fmap_2 (λ kr, with_relations db' (model_of_row kr))).
    apply elem_of_map_to_list, Hlook. split; [|done].
    intros <-. by apply Hne.
Qed.

(** ** More on the aggregate query *)

Lemma run_groupBy_nil qb db :
  run_groupBy qb db = []
  ↔ ∀ k r, transactions db !! k = Some r →
           where_holds qb (join_category db (k, r)) = false.
Proof.
  split.
  - intros Hnil k r Hkr.
    destruct (where_holds qb (join_category db (k, r))) eqn:Hw; [|done].
    assert (group_key (join_category db (k, r))
              ∈ Aggregate.cat_id <$> run_groupBy qb db) as Hin.
    { apply run_groupBy_key_iff. by exists k, r. }
    rewrite Hnil in Hin. by apply elem_of_nil in Hin.
  - intros Hnone. apply elem_of_nil_inv. intros row Hrow.
    apply (list_elem_of_fmap_2 Aggregate.cat_id) in Hrow.
    apply run_groupBy_key_iff in Hrow as (k & r & Hkr & Hw & _).
    rewrite (Hnone k r Hkr) in Hw. done.
Qed.

(** X14. [getTransactionsByCategory] fulfils with no row at all exactly when
    no transaction passes the date condition; so it does on an empty
    transaction table, however many categories there are. *)
Theorem getTransactionsByCategory_empty_iff db startDate endDate :
  (getTransactionsByCategory startDate endDate db = (Fulfilled [], db)
   ↔ ∀ k r, transactions db !! k = Some r →
            passes startDate endDate r = false) ∧
  (transactions db = ∅ →
   getTransactionsByCategory startDate endDate db = (Fulfilled [], db)).
Proof.
  assert (getTransactionsByCategory startDate endDate db = (Fulfilled [], db)
          ↔ ∀ k r, transactions db !! k = Some r →
                   passes startDate endDate r = false) as Hiff.
  { rewrite getTransactionsByCategory_run. split.
    - intros [= Hnil] k r Hkr.
      rewrite run_groupBy_nil in Hnil. specialize (Hnil k r Hkr).
      by rewrite where_holds_passes in Hnil.
    - intros Hnone. f_equal. f_equal. apply run_groupBy_nil.
      intros k r Hkr. rewrite where_holds_passes. by apply (Hnone k r). }
  split; [exact Hiff|].
  intros Hempty. apply Hiff. intros k r Hkr.
  rewrite Hempty in Hkr. by apply lookup_empty_Some in Hkr.
Qed.

(** X15. A range whose end lies before its start keeps no transaction:
    [getTransactionsByCategory] fulfils with no row. *)
Theorem getTransactionsByCategory_reversed_range db (startDate endDate : Z) :
  endDate < startDate →
  getTransactionsByCategory (JsVal startDate) (JsVal endDate) db
  = (Fulfilled [], db).
Proof.
  intros Hrev. rewrite getTransactionsByCategory_run. simpl.
  f_equal. f_equal. apply run_groupBy_nil. intros k r _.
  rewrite where_holds_whereBetween. simpl.
  apply andb_false_iff. rewrite !Z.leb_gt. lia.
Qed.

Lemma foldr_add_fmap_plus {K : Type} (a b : K → Z) (ks : list K) :
  foldr Z.add 0 ((λ k, a k + b k) <$> ks)
  = foldr Z.add 0 (a <$> ks) + foldr Z.add 0 (b <$> ks).
Proof. induction ks as [|k ks IH]; csimpl; [done|]. rewrite IH. lia. Qed.

Lemma foldr_add_zero {K : Type} (g : K → Z) (ks : list K) :
  (∀ k, g k = 0) → foldr Z.add 0 (g <$> ks) = 0.
Proof.
  intros Hg. induction ks as [|k ks IH]; csimpl; [done|]. by rewrite Hg, IH.
Qed.

Lemma foldr_add_indicator_0 {K : Type} `{EqDecision K} (k0 : K) (v : Z)
    (ks : list K) :
  k0 ∉ ks →
  foldr Z.add 0 ((λ k, if decide (k0 = k) then v else 0) <$> ks) = 0.
Proof.
  induction ks as [|k ks IH]; [done|]. intros [Hne Hk]%not_elem_of_cons.
  csimpl. rewrite IH by done. by destruct (decide (k0 = k)).
Qed.

Lemma foldr_add_indicator {K : Type} `{EqDecision K} (k0 : K) (v : Z)
    (ks : list K) :
  NoDup ks → k0 ∈ ks →
  foldr Z.add 0 ((λ k, if decide (k0 = k) then v else 0) <$> ks) = v.
Proof.
  induction 1 as [|k ks Hk Hnd IH]; intros Hin.
  - by apply elem_of_nil in Hin.
  - csimpl. destruct (decide (k0 = k)) as [->|Hne].
    + rewrite foldr_add_indicator_0 by done. lia.
    + apply elem_of_cons in Hin as [?|Hin]; [done|]. by rewrite IH.
Qed.

(** Summing group by group is summing the whole list. *)
Lemma foldr_add_groups {A K : Type} `{EqDecision K} (key : A → K) (f : A → Z)
    (l : list A) (ks : list K) :
  NoDup ks → (∀ x, x ∈ l → key x ∈ ks) →
  foldr Z.add 0
    ((λ k, foldr Z.add 0 (f <$> filter (λ x, key x = k) l)) <$> ks)
  = foldr Z.add 0 (f <$> l).
Proof.
  intros Hnd. induction l as [|x l IH]; intros Hkeys.
  - by apply foldr_add_zero.
  - rewrite fmap_cons. cbn [foldr].
    rewrite <- IH by (intros y Hy; apply Hkeys; by right).
    rewrite <- (foldr_add_indicator (key x) (f x) ks Hnd)
      by (apply Hkeys; by left).
    rewrite <- foldr_add_fmap_plus. f_equal. apply list_fmap_ext.
    intros _ k _. rewrite filter_cons. by destruct (decide (key x = k)).
Qed.

Lemma default_sql_sum (l : list Z) : default 0 (sql_sum l) = foldr Z.add 0 l.
Proof. by destruct l. Qed.

(** X16. Every transaction that passes the date condition is counted in
    exactly one row: the amounts of the rows of
    [getTransactionsByCategory] add up to the sum of the amounts of those
    transactions. *)
Theorem getTransactionsByCategory_total db startDate endDate :
  ∃ rows,
    getTransactionsByCategory startDate endDate db = (Fulfilled rows, db) ∧
    total_amount rows
    = sum_amounts
        (filter (λ kr, passes startDate endDate kr.2 = true)
                (map_to_list (transactions db))).
Proof.
  eexists. split; [apply getTransactionsByCategory_run|].
  unfold total_amount, run_groupBy. rewrite <- list_fmap_compose.
  set (qb := if truthy_object startDate && truthy_object endDate
             then whereBetween startDate endDate knex_select_from_leftOuterJoin
             else knex_select_from_leftOuterJoin).
  set (rows := filter (λ j, where_holds qb j = true) (leftOuterJoin db)).
  erewrite (list_fmap_ext _
              (λ k, foldr Z.add 0
                      ((λ j, amount (t j).2)
                         <$> filter (λ j, group_key j = k) rows)));
    [|intros _ k _; simpl; apply default_sql_sum].
  rewrite foldr_add_groups.
  - unfold rows, leftOuterJoin, sum_amounts.
    rewrite filter_fmap, <- list_fmap_compose. f_equal.
    f_equal. apply list_filter_iff. intros kr. unfold qb.
    by rewrite where_holds_passes.
  - apply NoDup_remove_dups.
  - intros j Hj. apply elem_of_remove_dups. by apply list_elem_of_fmap_2.
Qed.

(** The name of a row is the name of the category of its key. *)
Lemma run_groupBy_cat_name qb db (row : Aggregate.t) :
  row ∈ run_groupBy qb db →
  Aggregate.cat_name row
  = Aggregate.cat_id row ≫= (λ cid, name <$> categories db !! cid).
Proof.
  unfold run_groupBy. intros Hrow.
  apply list_elem_of_fmap in Hrow as (key & -> & Hkey). simpl.
  apply elem_of_remove_dups, list_elem_of_fmap in Hkey as (j & -> & Hj).
  set (rows := filter (λ j, where_holds qb j = true) (leftOuterJoin db)) in *.
  assert (j ∈ filter (λ j', group_key j' = group_key j) rows) as Hin
    by (by apply list_elem_of_filter).
  destruct (filter (λ j', group_key j' = group_key j) rows) as [|j0 l] eqn:Hl;
    [by apply elem_of_nil in Hin|].
  assert (j0 ∈ filter (λ j', group_key j' = group_key j) rows) as Hj0
    by (rewrite Hl; by left).
  apply list_elem_of_filter in Hj0 as [Hkey0 Hj0]. rewrite <- Hkey0. simpl.
  unfold rows in Hj0. apply list_elem_of_filter in Hj0 as [_ Hj0].
  apply list_elem_of_fmap in Hj0 as (kr & -> & _).
  unfold group_key, join_category; simpl.
  destruct (categories db !! category_id kr.2) as [cr|] eqn:Hc; simpl; [|done].
  by rewrite Hc.
Qed.

(** X17. Each row of [getTransactionsByCategory] that has a category id names
    an existing category and carries that category's name; the row without
    category id has no name either. *)
Theorem getTransactionsByCategory_names db startDate endDate rows row :
  getTransactionsByCategory startDate endDate db = (Fulfilled rows, db) →
  row ∈ rows →
  match Aggregate.cat_id row with
  | Some cid =>
      ∃ cr, categories db !! cid = Some cr
            ∧ Aggregate.cat_name row = Some (name cr)
  | None => Aggregate.cat_name row = None
  end.
Proof.
  rewrite getTransactionsByCategory_run. intros [= <-] Hrow.
  rewrite (run_groupBy_cat_name _ _ _ Hrow).
  apply (list_elem_of_fmap_2 Aggregate.cat_id) in Hrow.
  destruct (Aggregate.cat_id row) as [cid|]; [|done].
  apply run_groupBy_key_iff in Hrow as (k & r & _ & _ & Hkey).
  apply group_key_join_Some in Hkey as [_ [cr Hcr]].
  exists cr. simpl. by rewrite Hcr.
Qed.

(** X18. In a store that keeps referential integrity the join finds a
    category for every transaction: every row of
    [getTransactionsByCategory] has a category id and a category name. *)
Theorem getTransactionsByCategory_no_null_row db startDate endDate rows row :
  fk_ok db →
  getTransactionsByCategory startDate endDate db = (Fulfilled rows, db) →
  row ∈ rows →
  is_Some (Aggregate.cat_id row) ∧ is_Some (Aggregate.cat_name row).
Proof.
  intros Hfk. rewrite getTransactionsByCategory_run. intros [= <-] Hrow.
  rewrite (run_groupBy_cat_name _ _ _ Hrow).
  apply (list_elem_of_fmap_2 Aggregate.cat_id) in Hrow.
  apply run_groupBy_key_iff in Hrow as (k & r & Hkr & _ & Hkey).
  destruct (fk_check_related db r (Hfk k r Hkr)) as (_ & cr & _ & Hcr).
  rewrite group_key_join in Hkey. simpl in Hkey. rewrite Hcr in Hkey.
  rewrite <- Hkey. simpl. rewrite Hcr. by split; eexists.
Qed.

(** X19. A date range never brings in a category: every row of the ranged
    call has a row with the same category id and name in the call without
    dates. *)
Theorem getTransactionsByCategory_range_narrows db startDate endDate
    ranged row :
  getTransactionsByCategory startDate endDate db = (Fulfilled ranged, db) →
  row ∈ ranged →
  ∃ overall row',
    getTransactionsByCategory JsUndefined JsUndefined db
    = (Fulfilled overall, db) ∧
    row' ∈ overall ∧
    Aggregate.cat_id row' = Aggregate.cat_id row ∧
    Aggregate.cat_name row' = Aggregate.cat_name row.
Proof.
  rewrite getTransactionsByCategory_run. intros [= <-] Hrow.
  pose proof (run_groupBy_cat_name _ _ _ Hrow) as Hname.
  apply (list_elem_of_fmap_2 Aggregate.cat_id) in Hrow.
  apply run_groupBy_key_iff in Hrow as (k & r & Hkr & _ & Hkey).
  assert (Aggregate.cat_id row
            ∈ Aggregate.cat_id
                <$> run_groupBy knex_select_from_leftOuterJoin db) as Hin.
  { apply run_groupBy_key_iff. by exists k, r. }
  apply list_elem_of_fmap in Hin as (row' & Hid & Hrow').
  eexists. exists row'. split; [apply getTransactionsByCategory_run|].
  simpl. split; [done|]. split; [done|].
  by rewrite Hname, (run_groupBy_cat_name _ _ _ Hrow'), Hid.
Qed.

(** ** Successive creations *)

(** X20. Two creations in a row are given different identifiers, the second
    the greater, and both rows are in the table afterwards. *)
Theorem createTransaction_twice db d1 d2 :
  seq_ok db → valid_data db d1 → valid_data db d2 →
  d_id d1 = JsUndefined → d_id d2 = JsUndefined →
  ∃ k1 k2 db1 db2,
    createTransaction orm d1 db
    = (Fulfilled (new_Transaction (set_d_id (JsVal k1) d1)), db1) ∧
    createTransaction orm d2 db1
    = (Fulfilled (new_Transaction (set_d_id (JsVal k2) d2)), db2) ∧
    k1 < k2 ∧
    is_Some (transactions db2 !! k1) ∧ is_Some (transactions db2 !! k2).
Proof.
  intros Hseq Hv1 Hv2 Hn1 Hn2.
  destruct (createTransaction_run db d1 Hseq Hv1 Hn1) as (r1 & Hrun1 & _).
  set (db1 := with_seq (transactions_seq db + 1)
                (with_transactions
                   (<[transactions_seq db := r1]> (transactions db)) db))
    in *.
  assert (seq_ok db1) as Hseq1.
  { replace db1 with (saveTransaction orm d1 db).2; [by apply seq_ok_save|].
    unfold createTransaction in Hrun1. by rewrite Hrun1. }
  assert (valid_data db1 d2) as Hv2' by exact Hv2.
  destruct (createTransaction_run db1 d2 Hseq1 Hv2' Hn2) as (r2 & Hrun2 & _).
  exists (transactions_seq db), (transactions_seq db1), db1. eexists.
  split; [exact Hrun1|]. split; [exact Hrun2|]. simpl.
  split; [lia|]. split.
  - rewrite lookup_insert_ne by lia. rewrite lookup_insert_eq. by eexists.
  - rewrite lookup_insert_eq. by eexists.
Qed.

End Properties.

(** ** The claims at the sample stores *)

Lemma fk_ok_sample_db : fk_ok sample_db.
Proof. apply map_Forall_to_list. by vm_compute; repeat constructor. Qed.

Lemma seq_ok_fresh_db : seq_ok fresh_db.
Proof. split; [done|]. apply map_Forall_empty. Qed.

Lemma getTransaction_found_or_not_found_witness :
  fk_ok sample_db ∧
  ∃ a c,
    accounts sample_db !! 3 = Some a ∧ categories sample_db !! 1 = Some c ∧
    getTransaction 2 sample_db
    = (Fulfilled {| attributes := data_of_row 2 tyres;
                    account := Loaded (Some a);
                    category := Loaded (Some c) |}, sample_db).
Proof.
  split; [exact fk_ok_sample_db|].
  exact (getTransaction_found_or_not_found sample_db 2 fk_ok_sample_db).
Defined.

Lemma valid_groceries_fresh : valid_data fresh_db groceries.
Proof. repeat split; by eexists. Qed.

Lemma createTransaction_inserts_witness :
  ∃ k r,
    createTransaction sample_orm groceries fresh_db
    = (Fulfilled (new_Transaction (set_d_id (JsVal k) groceries)),
       with_seq (k + 1)
         (with_transactions (<[k := r]> (transactions fresh_db)) fresh_db))
    ∧ 0 < k ∧ transactions fresh_db !! k = None
    ∧ data_of_row k r = set_d_id (JsVal k) groceries.
Proof.
  apply (createTransaction_inserts sample_orm fresh_db groceries).
  - exact seq_ok_fresh_db.
  - exact valid_groceries_fresh.
  - reflexivity.
Defined.

(** The first transaction of a fresh store gets identifier 1. *)
Example createTransaction_fresh :
  (createTransaction sample_orm groceries fresh_db).1
  = Fulfilled (new_Transaction (set_d_id (JsVal 1) groceries)).
Proof. reflexivity. Qed.

Lemma valid_groceries_sample : valid_data sample_db (set_d_id (JsVal 2) groceries).
Proof. repeat split; by eexists. Qed.

Lemma updateTransaction_replaces_witness :
  ∃ r,
    updateTransaction sample_orm (set_d_id (JsVal 2) groceries) sample_db
    = (Fulfilled (new_Transaction (set_d_id (JsVal 2) groceries)),
       with_transactions (<[2 := r]> (transactions sample_db)) sample_db)
    ∧ data_of_row 2 r = set_d_id (JsVal 2) groceries.
Proof.
  apply (updateTransaction_replaces sample_orm sample_db
           (set_d_id (JsVal 2) groceries) 2 tyres).
  - exact valid_groceries_sample.
  - reflexivity.
  - reflexivity.
Defined.

(** An update that supplies one field leaves the others of the row as they
    were: replacing the whole row is the caller's doing. *)
Example updateTransaction_partial :
  transactions
    (updateTransaction sample_orm
       {| d_id := JsVal 2; d_txn_date := JsUndefined; d_payee := JsUndefined;
          d_memo := JsVal "New tyres"; d_amount := JsUndefined;
          d_account_id := JsUndefined; d_category_id := JsUndefined |}
       sample_db).2 !! 2
  = Some {| txn_date := 20; payee := "Tyre Shop"; memo := "New tyres";
            amount := -20; account_id := 3; category_id := 1 |}.
Proof. reflexivity. Qed.

Lemma getTransactions_falsy_accountId_witness :
  getTransactions (JsVal 0) sample_db = getTransactions JsUndefined sample_db ∧
  getTransactions (JsVal 0) sample_db
  = (Fulfilled (loaded_rows sample_db (map_to_list (transactions sample_db))),
     sample_db).
Proof.
  apply (getTransactions_falsy_accountId sample_db (JsVal 0)). reflexivity.
Defined.

Lemma getTransactions_by_account_witness :
  ∃ all ms,
    getTransactions JsUndefined sample_db = (Fulfilled all, sample_db) ∧
    all = loaded_rows sample_db (map_to_list (transactions sample_db)) ∧
    getTransactions (JsVal 3) sample_db = (Fulfilled ms, sample_db) ∧
    ms = loaded_rows sample_db
           (filter (λ kr, account_id kr.2 = 3)
                   (map_to_list (transactions sample_db))) ∧
    ms ⊆ all.
Proof. apply (getTransactions_by_account sample_db 3). lia. Defined.

(** C6 fails at account identifier [0]: the call returns a transaction of
    account 3. *)
Lemma getTransactions_zero_not_filtered :
  ¬ (∀ ms,
       getTransactions (JsVal 0) sample_db = (Fulfilled ms, sample_db) →
       ∀ m, m ∈ ms → d_account_id (attributes m) = JsVal 0).
Proof.
  intros Hclaim.
  specialize (Hclaim _ (getTransactions_run sample_db (JsVal 0))
                (with_relations sample_db (model_of_row (1, gas)))).
  simpl in Hclaim. rewrite select_where_all in Hclaim.
  enough (JsVal 3 = JsVal 0 :> js_opt Z) by discriminate.
  apply Hclaim.
  apply (list_elem_of_fmap_2 (λ kr, with_relations sample_db (model_of_row kr))).
  by apply elem_of_map_to_list.
Qed.

Lemma getTransactionsByCategory_one_date_witness :
  getTransactionsByCategory (JsVal 15) JsNull sample_db
  = getTransactionsByCategory JsUndefined JsUndefined sample_db ∧
  ∃ rows,
    getTransactionsByCategory (JsVal 15) JsNull sample_db
    = (Fulfilled rows, sample_db).
Proof.
  apply (getTransactionsByCategory_one_date sample_db (JsVal 15) JsNull).
  right. reflexivity.
Defined.

(** C1 fails at the sample store: category 3 exists and has no row. *)
Lemma getTransactionsByCategory_skips_category :
  is_Some (categories sample_db !! 3) ∧
  ∃ rows,
    getTransactionsByCategory JsUndefined JsUndefined sample_db
    = (Fulfilled rows, sample_db) ∧
    ¬ ∃ row, row ∈ rows ∧ Aggregate.cat_id row = Some 3.
Proof.
  split; [by eexists|]. eexists. split; [reflexivity|].
  intros (row & Hrow & Hid).
  apply (list_elem_of_fmap_2 Aggregate.cat_id) in Hrow. rewrite Hid in Hrow.
  apply run_groupBy_key_iff in Hrow as (k & r & Hkr & _ & Hkey).
  apply group_key_join_Some in Hkey as [Hc _]. simpl in Hc.
  assert (map_Forall (λ _ r, category_id r ≠ 3) (transactions sample_db))
    as Hnone.
  { apply map_Forall_to_list. by vm_compute; repeat constructor. }
  by apply (Hnone k r Hkr).
Qed.

(** The sums of the sample store, overall and over a range that leaves out
    the first transaction. *)
Example getTransactionsByCategory_sample :
  (getTransactionsByCategory JsUndefined JsUndefined sample_db).1
  = Fulfilled
      [ {| Aggregate.cat_id := Some 2; Aggregate.cat_name := Some "Salary";
           Aggregate.amount := Some 100 |};
        {| Aggregate.cat_id := Some 1;
           Aggregate.cat_name := Some "Auto & Transport";
           Aggregate.amount := Some (-50) |} ].
Proof. vm_compute. reflexivity. Qed.

Example getTransactionsByCategory_sample_range :
  (getTransactionsByCategory (JsVal 15) (JsVal 30) sample_db).1
  = Fulfilled
      [ {| Aggregate.cat_id := Some 2; Aggregate.cat_name := Some "Salary";
           Aggregate.amount := Some 100 |};
        {| Aggregate.cat_id := Some 1;
           Aggregate.cat_name := Some "Auto & Transport";
           Aggregate.amount := Some (-20) |} ].
Proof. vm_compute. reflexivity. Qed.

(** ** The further properties at the sample stores *)

Lemma getTransaction_after_createTransaction_witness :
  ∃ k a c db',
    createTransaction sample_orm groceries fresh_db
    = (Fulfilled (new_Transaction (set_d_id (JsVal k) groceries)), db') ∧
    getTransaction k db'
    = (Fulfilled {| attributes := set_d_id (JsVal k) groceries;
                    account := Loaded (Some a);
                    category := Loaded (Some c) |}, db').
Proof.
  apply (getTransaction_after_createTransaction sample_orm fresh_db groceries).
  - exact seq_ok_fresh_db.
  - exact valid_groceries_fresh.
  - reflexivity.
Defined.

Lemma getTransaction_after_updateTransaction_witness :
  ∃ a c db',
    updateTransaction sample_orm (set_d_id (JsVal 2) groceries) sample_db
    = (Fulfilled (new_Transaction (set_d_id (JsVal 2) groceries)), db') ∧
    getTransaction 2 db'
    = (Fulfilled {| attributes := set_d_id (JsVal 2) groceries;
                    account := Loaded (Some a);
                    category := Loaded (Some c) |}, db').
Proof.
  apply (getTransaction_after_updateTransaction sample_orm sample_db
           (set_d_id (JsVal 2) groceries) 2 tyres).
  - exact valid_groceries_sample.
  - reflexivity.
  - reflexivity.
Defined.

Lemma updateTransaction_touches_one_row_witness :
  let db' :=
    (updateTransaction sample_orm (set_d_id (JsVal 99) groceries) sample_db).2
  in
  dom (transactions db') = dom (transactions sample_db) ∧
  (∀ k', k' ≠ 99 → transactions db' !! k' = transactions sample_db !! k') ∧
  transactions_seq db' = transactions_seq sample_db ∧
  accounts db' = accounts sample_db ∧ categories db' = categories sample_db.
Proof.
  apply (updateTransaction_touches_one_row sample_orm sample_db
           (set_d_id (JsVal 99) groceries) 99).
  reflexivity.
Defined.

Lemma createTransaction_keeps_rows_witness :
  let db' := (createTransaction sample_orm groceries sample_db).2 in
  (∀ k r, transactions sample_db !! k = Some r
          → transactions db' !! k = Some r) ∧
  accounts db' = accounts sample_db ∧ categories db' = categories sample_db.
Proof.
  apply (createTransaction_keeps_rows sample_orm sample_db groceries).
  reflexivity.
Defined.

Lemma rejected_save_changes_nothing_witness :
  let db' := (saveTransaction sample_orm receipt sample_db).2 in
  (createTransaction sample_orm receipt sample_db).2 = db' ∧
  (updateTransaction sample_orm receipt sample_db).2 = db' ∧
  transactions db' = transactions sample_db ∧
  accounts db' = accounts sample_db ∧
  categories db' = categories sample_db ∧
  transactions_seq sample_db ≤ transactions_seq db'
  ≤ transactions_seq sample_db + 1 ∧
  (∀ id, (getTransaction id db').1 = (getTransaction id sample_db).1) ∧
  (∀ accountId,
     (getTransactions accountId db').1
     = (getTransactions accountId sample_db).1) ∧
  (∀ startDate endDate,
     (getTransactionsByCategory startDate endDate db').1
     = (getTransactionsByCategory startDate endDate sample_db).1).
Proof.
  apply (rejected_save_changes_nothing sample_orm sample_db receipt
           ConstraintError).
  reflexivity.
Defined.

(** The refused INSERT of the witness has taken a value from the
    sequence. *)
Example createTransaction_refused_sequence :
  (createTransaction sample_orm receipt sample_db).1 = Rejected ConstraintError
  ∧ transactions_seq (createTransaction sample_orm receipt sample_db).2 = 5.
Proof. split; reflexivity. Qed.

(** An identifier of [null] is refused by the INSERT, and nothing is
    written. *)
Example createTransaction_null_id :
  createTransaction sample_orm (set_d_id JsNull groceries) fresh_db
  = (Rejected ConstraintError, fresh_db).
Proof. reflexivity. Qed.

Lemma deleteTransaction_after_createTransaction_witness :
  ∃ k db',
    createTransaction sample_orm groceries fresh_db
    = (Fulfilled (new_Transaction (set_d_id (JsVal k) groceries)), db') ∧
    transactions (deleteTransaction sample_orm k db').2
    = transactions fresh_db ∧
    transactions_seq (deleteTransaction sample_orm k db').2
    = transactions_seq fresh_db + 1.
Proof.
  apply (deleteTransaction_after_createTransaction sample_orm fresh_db
           groceries).
  - exact seq_ok_fresh_db.
  - exact valid_groceries_fresh.
  - reflexivity.
Defined.

Lemma getTransactions_relations_witness :
  ∃ a c,
    account (with_relations sample_db (model_of_row (1, gas)))
    = Loaded (Some a) ∧
    category (with_relations sample_db (model_of_row (1, gas)))
    = Loaded (Some c).
Proof.
  apply (getTransactions_relations sample_db (JsVal 3)
           (loaded_rows sample_db
              (filter (λ kr, account_id kr.2 = 3)
                      (map_to_list (transactions sample_db))))
           (with_relations sample_db (model_of_row (1, gas)))).
  - exact fk_ok_sample_db.
  - reflexivity.
  - vm_compute. repeat constructor.
Defined.

Lemma getTransactionsByCategory_reversed_range_witness :
  getTransactionsByCategory (JsVal 30) (JsVal 10) sample_db
  = (Fulfilled [], sample_db).
Proof.
  apply (getTransactionsByCategory_reversed_range sample_db 30 10). lia.
Defined.

Lemma getTransactionsByCategory_names_witness :
  ∃ cr, categories sample_db !! 2 = Some cr ∧ Some "Salary" = Some (name cr).
Proof.
  apply (getTransactionsByCategory_names sample_db JsUndefined JsUndefined
           (run_groupBy knex_select_from_leftOuterJoin sample_db)
           {| Aggregate.cat_id := Some 2; Aggregate.cat_name := Some "Salary";
              Aggregate.amount := Some 100 |}).
  - reflexivity.
  - vm_compute. repeat constructor.
Defined.

Lemma getTransactionsByCategory_no_null_row_witness :
  is_Some (Some 1) ∧ is_Some (Some "Auto & Transport").
Proof.
  apply (getTransactionsByCategory_no_null_row sample_db (JsVal 15) (JsVal 30)
           (run_groupBy
              (whereBetween (JsVal 15) (JsVal 30)
                 knex_select_from_leftOuterJoin) sample_db)
           {| Aggregate.cat_id := Some 1;
              Aggregate.cat_name := Some "Auto & Transport";
              Aggregate.amount := Some (-20) |}).
  - exact fk_ok_sample_db.
  - reflexivity.
  - vm_compute. repeat constructor.
Defined.

Lemma getTransactionsByCategory_range_narrows_witness :
  ∃ overall row',
    getTransactionsByCategory JsUndefined JsUndefined sample_db
    = (Fulfilled overall, sample_db) ∧
    row' ∈ overall ∧
    Aggregate.cat_id row' = Some 1 ∧
    Aggregate.cat_name row' = Some "Auto & Transport".
Proof.
  apply (getTransactionsByCategory_range_narrows sample_db (JsVal 15)
           (JsVal 30)
           (run_groupBy
              (whereBetween (JsVal 15) (JsVal 30)
                 knex_select_from_leftOuterJoin) sample_db)
           {| Aggregate.cat_id := Some 1;
              Aggregate.cat_name := Some "Auto & Transport";
              Aggregate.amount := Some (-20) |}).
  - reflexivity.
  - vm_compute. repeat constructor.
Defined.

Lemma createTransaction_twice_witness :
  ∃ k1 k2 db1 db2,
    createTransaction sample_orm groceries fresh_db
    = (Fulfilled (new_Transaction (set_d_id (JsVal k1) groceries)), db1) ∧
    createTransaction sample_orm groceries db1
    = (Fulfilled (new_Transaction (set_d_id (JsVal k2) groceries)), db2) ∧
    k1 < k2 ∧
    is_Some (transactions db2 !! k1) ∧ is_Some (transactions db2 !! k2).
Proof.
  apply (createTransaction_twice sample_orm fresh_db groceries groceries).
  - exact seq_ok_fresh_db.
  - exact valid_groceries_fresh.
  - exact valid_groceries_fresh.
  - reflexivity.
  - reflexivity.
Defined.
